(** * fo_cvat_polylines: back-projection of 2D polylines to 3D

    A shallow embedding of [polyline_2d_to_3d], of the grouping loop of
    [load_annotation] and of the slice choices of [resolve_input]
    (src/__init__.py), with the properties of the specification that
    concern them and further properties of the code.

    Modelling choices.
    - float64 values are idealised as rationals [Q] with exact arithmetic
      (no rounding, no NaN, no infinities).  Arithmetic identities are
      stated with [==] (equality of rationals); values that the code only
      copies are compared with [=].  Where rounding decides a property,
      the operations on a point are also given in binary64.
    - The nested Python list [polyline_2d.points] is a
      [list (list (list Q))]: chains, points of a chain, coordinates of a
      point.
    - A raised Python exception is the [inl] of a sum; only the exceptions
      that numpy and tuple indexing raise in this code are listed.
    - [np.array] follows numpy >= 1.24, where a ragged nested list is
      rejected with ValueError.
    - The dict [polylines_3d] is a [gmap string _]. *)

From Stdlib Require Import QArith SpecFloat.
From stdpp Require Import gmap strings list fin_maps.

Local Open Scope Q_scope.

(** ** Exceptions and the error monad *)

Inductive exn : Type :=
| IndexError
| ValueError.

Definition result (A : Type) : Type := (exn + A)%type.

Definition Ok {A : Type} (a : A) : result A := inr a.
Definition Raise {A : Type} (e : exn) : result A := inl e.

Definition bind {A B : Type} (m : result A) (k : A -> result B) : result B :=
  match m with
  | inl e => inl e
  | inr a => k a
  end.

Notation "x <- m ;; k" := (bind m (fun x => k))
  (at level 100, m at next level, right associativity).

(** ** Data model *)

Abbreviation Chains := (list (list (list Q))).

(** The attributes of the input [fo.Polyline] that the code reads. *)
Record Polyline2D : Type := mkPolyline2D {
  label : string;
  points : Chains
}.

(** The keyword arguments of [fo.Polyline(points3d=..., label=...)]. *)
Record Polyline3D : Type := mkPolyline3D {
  points3d : Chains;
  label3d : string
}.

(** [fo.Polylines(polylines=...)]. *)
Record Polylines (A : Type) : Type := mkPolylines {
  polylines : list A
}.
Arguments mkPolylines {A} _.
Arguments polylines {A} _.

(** The orthographic projection metadata: [min_bound] and [max_bound] are
    2-component vectors, read by the code at indices 0 and 1 ([fst] and
    [snd] here). *)
Record Metadata : Type := mkMetadata {
  min_bound : Q * Q;
  max_bound : Q * Q;
  width : Z;
  height : Z
}.

(** ** The numpy fragment used by the code *)

(** An array of at most three dimensions: its shape tuple and its items as
    nested lists. *)
Record ndarray : Type := mkArray {
  shape : list nat;
  items : Chains
}.

Definition conforms (m k : nat) (a : Chains) : bool :=
  forallb (fun c => Nat.eqb (length c) m
                    && forallb (fun p => Nat.eqb (length p) k) c) a.

(** [np.array(nested)]: the shape is discovered depth first along the first
    elements, an empty sequence closing the shape; every other element has
    to conform, otherwise the nested list is inhomogeneous. *)
Definition np_array (a : Chains) : result ndarray :=
  match a with
  | [] => Ok (mkArray [0%nat] a)
  | [] :: _ =>
      if forallb (fun c => Nat.eqb (length c) 0) a
      then Ok (mkArray [length a; 0%nat] a)
      else Raise ValueError
  | (p0 :: _) as c0 :: _ =>
      if conforms (length c0) (length p0) a
      then Ok (mkArray [length a; length c0; length p0] a)
      else Raise ValueError
  end.

(** [t[i]] on a tuple, for a non-negative literal [i]. *)
Definition tuple_get (t : list nat) (i : nat) : result nat :=
  match t !! i with
  | Some n => Ok n
  | None => Raise IndexError
  end.

(** [np.zeros((s0, s1, s2))]. *)
Definition np_zeros (s0 s1 s2 : nat) : ndarray :=
  mkArray [s0; s1; s2] (replicate s0 (replicate s1 (replicate s2 0))).

(** Size of the last axis of a three-dimensional array. *)
Definition axis2 (a : ndarray) : nat :=
  match shape a with
  | [_; _; s2] => s2
  | _ => 0%nat
  end.

(** An integer index on an axis of size [n]: negative indices count from
    the end, anything outside [-n, n) is an IndexError. *)
Definition norm_index (n : nat) (i : Z) : result nat :=
  if ((0 <=? i)%Z && (i <? Z.of_nat n)%Z)%bool then Ok (Z.to_nat i)
  else if ((- Z.of_nat n <=? i)%Z && (i <? 0)%Z)%bool
       then Ok (Z.to_nat (Z.of_nat n + i))
       else Raise IndexError.

(** A function on rows applied to every row of the items. *)
Definition map_rows (g : list Q -> list Q) (a : Chains) : Chains :=
  fmap (M := list) (fmap (M := list) g) a.

(** [a[:, :, j] op= ...]: the function [f] applied in place to column [j]
    of every row; the assignment [a[:, :, j] = v] is the constant function
    [v]. *)
Definition update_col (a : ndarray) (j : Z) (f : Q -> Q) : result ndarray :=
  c <- norm_index (axis2 a) j ;;
  Ok (mkArray (shape a) (map_rows (alter f c) (items a))).

(** [a[:, :, :-1] = b]: all columns of each row but the last are replaced
    by the row of [b].  The shapes have to agree (they always do where the
    code assigns; broadcasting is not modelled). *)
Definition assign_init (a b : ndarray) : result ndarray :=
  match shape a, shape b with
  | [a0; a1; a2], [b0; b1; b2] =>
      if (Nat.eqb a0 b0 && Nat.eqb a1 b1 && Nat.eqb (a2 - 1) b2)%bool
      then Ok (mkArray (shape a)
                 (zip_with (zip_with (fun ra rb => rb ++ drop (length rb) ra))
                    (items a) (items b)))
      else Raise ValueError
  | _, _ => Raise ValueError
  end.

Definition tolist (a : ndarray) : Chains := items a.

(** ** polyline_2d_to_3d

    The local array [points] of the source is [pts] here, the name
    [points] being the attribute of the input polyline. *)

Definition polyline_2d_to_3d (polyline_2d : Polyline2D) (metadata : Metadata)
    (road_z_value : Q) : result Polyline3D :=
  let min_bound := min_bound metadata in
  let max_bound := max_bound metadata in
  let width := width metadata in
  let height := height metadata in
  arr <- np_array (points polyline_2d) ;;
  let shape := shape arr in
  s0 <- tuple_get shape 0 ;;
  s1 <- tuple_get shape 1 ;;
  s2 <- tuple_get shape 2 ;;
  let pts := np_zeros s0 s1 (s2 + 1) in
  pts <- update_col pts (-1) (fun _ => road_z_value) ;;
  src <- np_array (points polyline_2d) ;;
  pts <- assign_init pts src ;;
  pts <- update_col pts 1 (fun x => x * (-1 # 1)) ;;
  pts <- update_col pts 1 (fun x => x + 1) ;;
  pts <- update_col pts 0 (fun x => x * (fst max_bound - fst min_bound)) ;;
  pts <- update_col pts 1 (fun x => x * (snd max_bound - snd min_bound)) ;;
  pts <- update_col pts 0 (fun x => x + fst min_bound) ;;
  pts <- update_col pts 1 (fun x => x + snd min_bound) ;;
  Ok (mkPolyline3D (tolist pts) (label polyline_2d)).

(** ** The grouping loop of load_annotation *)

(** The inner loop: every polyline of the sample is converted and appended,
    in order; an exception of [polyline_2d_to_3d] leaves the loop. *)
Fixpoint convert_polylines (ps : list Polyline2D) (metadata : Metadata)
    (road_surface : Q) (sample_polylines_3d : list Polyline3D)
    : result (list Polyline3D) :=
  match ps with
  | [] => Ok sample_polylines_3d
  | p :: rest =>
      polyline_3d <- polyline_2d_to_3d p metadata road_surface ;;
      convert_polylines rest metadata road_surface
        (sample_polylines_3d ++ [polyline_3d])
  end.

Definition convert_sample (sample_polylines : option (Polylines Polyline2D))
    (metadata : Metadata) (road_surface : Q) : result (list Polyline3D) :=
  match sample_polylines with
  | None => Ok []
  | Some sp => convert_polylines (polylines sp) metadata road_surface []
  end.

Definition Entry : Type :=
  (option (Polylines Polyline2D) * Metadata * string)%type.

Definition group_id (e : Entry) : string := snd e.

(** Python's [zip] of three lists stops with the shortest. *)
Fixpoint zip3 {A B C : Type} (la : list A) (lb : list B) (lc : list C)
    : list (A * B * C) :=
  match la, lb, lc with
  | a :: la', b :: lb', c :: lc' => (a, b, c) :: zip3 la' lb' lc'
  | _, _, _ => []
  end.

Fixpoint group_loop (entries : list Entry) (road_surface : Q)
    (polylines_3d : gmap string (Polylines Polyline3D))
    : result (gmap string (Polylines Polyline3D)) :=
  match entries with
  | [] => Ok polylines_3d
  | (sample_polylines, metadata, group_id) :: rest =>
      sample_polylines_3d <- convert_sample sample_polylines metadata road_surface ;;
      group_loop rest road_surface
        (<[group_id := mkPolylines sample_polylines_3d]> polylines_3d)
  end.

(** Lines 92-100 of [load_annotation]: the dict built from the three
    parallel value lists. *)
Definition load_annotation (all_polylines : list (option (Polylines Polyline2D)))
    (metadatas : list Metadata) (group_ids : list string) (road_surface : Q)
    : result (gmap string (Polylines Polyline3D)) :=
  let polylines_3d := ∅ in
  group_loop (zip3 all_polylines metadatas group_ids) road_surface polylines_3d.

(** ** The slice choices of resolve_input

    Lines 140-146 and 223-229, the same loop in both operators: the
    choices of the dropdown (by their values, in the order they are added)
    and [default_pcd_slice], over the items of [group_media_types] in the
    order of the dict. *)

(** [t in ["pcd", "3d"]]. *)
Definition is_pcd_media_type (t : string) : bool :=
  bool_decide (t ∈ ["pcd"; "3d"]%string).

Fixpoint slice_loop (items : list (string * string))
    (slice_choices : list string) (default_pcd_slice : option string)
    : list string * option string :=
  match items with
  | [] => (slice_choices, default_pcd_slice)
  | (s, t) :: rest =>
      if is_pcd_media_type t
      then slice_loop rest (slice_choices ++ [s])
             (match default_pcd_slice with
              | None => Some s
              | Some d => Some d
              end)
      else slice_loop rest slice_choices default_pcd_slice
  end.

Definition pcd_slice_choices (group_media_types : list (string * string))
    : list string * option string :=
  slice_loop group_media_types [] None.

(** ** Notions used by the statements *)

(** [rect n m k a]: [a] has [n] chains of [m] points of [k] coordinates. *)
Definition rect (n m k : nat) (a : Chains) : Prop :=
  length a = n ∧
  Forall (fun c => length c = m ∧ Forall (fun p => length p = k) c) a.

(** The operations of lines 67-72 on one row of the array, in the order of
    the source. *)
Definition row_ops (metadata : Metadata) (row : list Q) : list Q :=
  let lo := min_bound metadata in
  let hi := max_bound metadata in
  alter (fun x => x + snd lo) 1%nat
    (alter (fun x => x + fst lo) 0%nat
      (alter (fun x => x * (snd hi - snd lo)) 1%nat
        (alter (fun x => x * (fst hi - fst lo)) 0%nat
          (alter (fun x => x + 1) 1%nat
            (alter (fun x => x * (-1 # 1)) 1%nat row))))).

(** The row of the output array for the input point [pt]. *)
Definition lift_point (metadata : Metadata) (road_z_value : Q) (pt : list Q)
    : list Q :=
  row_ops metadata (pt ++ [road_z_value]).

Definition point_at (a : Chains) (i j : nat) : option (list Q) :=
  match a !! i with
  | Some c => c !! j
  | None => None
  end.



(** An entry of the batch whose polylines [polyline_2d_to_3d] all accepts. *)
Definition convertible (road_surface : Q) (e : Entry) : Prop :=
  ∃ c, convert_sample (fst (fst e)) (snd (fst e)) road_surface = Ok c.

(** The slices of point-cloud media type, in the order of the dict. *)
Definition pcd_slices (group_media_types : list (string * string))
    : list string :=
  fst <$> List.filter (fun it => is_pcd_media_type (snd it)) group_media_types.

(** A polyline [polyline_2d_to_3d] accepts. *)
Definition accepted (metadata : Metadata) (road_surface : Q)
    (p : Polyline2D) : Prop :=
  ∃ r, polyline_2d_to_3d p metadata road_surface = Ok r.

(** ** The arithmetic of lines 67-72 in binary64

    The model above computes in exact rationals.  What rounding does to a
    point is read off the same operations on one row of the array, carried
    out in IEEE 754 binary64 as numpy does: the operations of the Standard
    Library's [SpecFloat] at precision 53 and maximal exponent 1024. *)

Definition prec64 : Z := 53.
Definition emax64 : Z := 1024.

(** The binary64 value nearest to [m * 2^e]. *)
Definition binary64 (m e : Z) : spec_float :=
  binary_normalize prec64 emax64 m e false.

Definition add64 : spec_float -> spec_float -> spec_float :=
  SFadd prec64 emax64.
Definition sub64 : spec_float -> spec_float -> spec_float :=
  SFsub prec64 emax64.
Definition mul64 : spec_float -> spec_float -> spec_float :=
  SFmul prec64 emax64.

(** The operations of lines 67-72 on one row, in the order of the source
    ([row_ops] with binary64 operations). *)
Definition row_ops64 (lo hi : spec_float * spec_float)
    (row : list spec_float) : list spec_float :=
  alter (fun x => add64 x (snd lo)) 1%nat
    (alter (fun x => add64 x (fst lo)) 0%nat
      (alter (fun x => mul64 x (sub64 (snd hi) (snd lo))) 1%nat
        (alter (fun x => mul64 x (sub64 (fst hi) (fst lo))) 0%nat
          (alter (fun x => add64 x (binary64 1 0)) 1%nat
            (alter (fun x => mul64 x (binary64 (-1) 0)) 1%nat row))))).

(** The row of the output array for the input point [pt] ([lift_point]
    with binary64 operations). *)
Definition lift_point64 (lo hi : spec_float * spec_float)
    (road_z_value : spec_float) (pt : list spec_float) : list spec_float :=
  row_ops64 lo hi (pt ++ [road_z_value]).


(** ** Concrete inputs *)

Definition corner_metadata : Metadata :=
  mkMetadata (0, 0) (10, 20) 1920 1080.

Definition corner_polyline : Polyline2D :=
  mkPolyline2D "lane" [[[0; 0]; [1; 1]]].

Definition no_chain_polyline : Polyline2D := mkPolyline2D "lane" [].

Definition empty_chains_polyline : Polyline2D := mkPolyline2D "lane" [[]; []].

Definition some_empty_chain_polyline : Polyline2D :=
  mkPolyline2D "lane" [[]; [[0; 0]; [1; 1]]].

Definition ragged_polyline : Polyline2D :=
  mkPolyline2D "lane" [[[0; 0]; [1; 1]]; [[0; 1]]].

Definition one_coordinate_polyline : Polyline2D :=
  mkPolyline2D "lane" [[[1]; [0]]].

Definition three_coordinate_polyline : Polyline2D :=
  mkPolyline2D "lane" [[[1; 0; 7]; [0; 1; 9]]].

Definition no_coordinate_polyline : Polyline2D :=
  mkPolyline2D "lane" [[[]]].

Definition batch_polylines : list (option (Polylines Polyline2D)) :=
  [Some (mkPolylines [corner_polyline]); None].

Definition batch_metadatas : list Metadata :=
  [corner_metadata; corner_metadata].

Definition batch_ids : list string := ["g1"; "g2"]%string.

Definition repeated_ids : list string := ["g1"; "g1"]%string.

Definition midpoint_polyline : Polyline2D :=
  mkPolyline2D "lane" [[[0; 0]; [1; 1]]; [[1 # 2; 1 # 2]; [0; 1]]].

Definition other_size_metadata : Metadata :=
  mkMetadata (0, 0) (10, 20) 640 480.

Definition inverted_metadata : Metadata :=
  mkMetadata (10, 20) (0, 0) 1920 1080.

Definition unit_square_polyline : Polyline2D :=
  mkPolyline2D "lane" [[[1 # 4; 1 # 4]; [3 # 4; 1 # 2]]].

Definition media_types : list (string * string) :=
  [("left", "image"); ("lidar", "pcd"); ("scene", "3d");
   ("projection", "image")]%string.

Definition failing_batch_polylines : list (option (Polylines Polyline2D)) :=
  [Some (mkPolylines [corner_polyline]);
   Some (mkPolylines [corner_polyline; no_chain_polyline; ragged_polyline]);
   Some (mkPolylines [ragged_polyline])].

Definition failing_batch_metadatas : list Metadata :=
  [corner_metadata; corner_metadata; corner_metadata].

Definition failing_batch_ids : list string := ["g1"; "g2"; "g3"]%string.

Definition long_ids : list string := ["g1"; "g2"; "g3"; "g4"]%string.

Definition degenerate_metadata : Metadata :=
  mkMetadata (3, 5) (3, 5) 1920 1080.

Definition swapped_batch_polylines : list (option (Polylines Polyline2D)) :=
  [None; Some (mkPolylines [corner_polyline])].

Definition swapped_batch_ids : list string := ["g2"; "g1"]%string.

(** Bounds [(0, 0)] and [(10, 20)], plane height [-1.6], the points
    [(0.3, 0)] and [(1, 0)] and the scalar [0.2], as binary64 values. *)
Definition lo64 : spec_float * spec_float := (binary64 0 0, binary64 0 0).
Definition hi64 : spec_float * spec_float := (binary64 10 0, binary64 20 0).
Definition height64 : spec_float := binary64 (-7205759403792794) (-52).

Example corner_run :
  polyline_2d_to_3d corner_polyline corner_metadata (-16 # 10)
  = Ok (mkPolyline3D [[[0; 20; -16 # 10]; [10; 0; -16 # 10]]] "lane").
Proof. vm_compute. reflexivity. Qed.

(** ** Shapes *)

Lemma conforms_rect m k a :
  conforms m k a = true ↔
  Forall (fun c => length c = m ∧ Forall (fun p => length p = k) c) a.
Proof.
  unfold conforms. rewrite forallb_forall, Forall_forall.
  split; intros H c Hc.
  - apply list_elem_of_In, H in Hc. apply andb_true_iff in Hc as [H1 H2].
    split; [by apply Nat.eqb_eq|].
    apply Forall_forall. intros p Hp.
    rewrite forallb_forall in H2.
    by apply Nat.eqb_eq, H2, list_elem_of_In.
  - apply list_elem_of_In, H in Hc as [H1 H2].
    apply andb_true_iff. split; [by apply Nat.eqb_eq|].
    apply forallb_forall. intros p Hp. apply Nat.eqb_eq.
    rewrite Forall_forall in H2. by apply H2, list_elem_of_In.
Qed.

Lemma np_array_rect n m k a :
  (0 < n)%nat → (0 < m)%nat → rect n m k a →
  np_array a = Ok (mkArray [n; m; k] a).
Proof.
  intros Hn Hm [Hlen Hall].
  destruct a as [|c0 a']; [simpl in Hlen; lia|].
  pose proof (Forall_inv Hall) as [Hc0 Hp0].
  destruct c0 as [|p0 c0']; [simpl in Hc0; lia|].
  pose proof (Forall_inv Hp0) as Hk.
  unfold np_array.
  rewrite Hc0, Hk, Hlen.
  by rewrite (proj2 (conforms_rect m k _) Hall).
Qed.

(** ** Index normalisation *)

Lemma norm_index_last k : norm_index (k + 1) (-1) = Ok k.
Proof.
  unfold norm_index.
  replace (0 <=? -1)%Z with false by done. simpl andb.
  replace (- Z.of_nat (k + 1) <=? -1)%Z with true
    by (symmetry; apply Z.leb_le; lia).
  simpl. unfold Ok. do 2 f_equal. lia.
Qed.

Lemma norm_index_nonneg n (i : nat) :
  (i < n)%nat → norm_index n (Z.of_nat i) = Ok i.
Proof.
  intros Hi. unfold norm_index.
  replace (0 <=? Z.of_nat i)%Z with true by (symmetry; apply Z.leb_le; lia).
  replace (Z.of_nat i <? Z.of_nat n)%Z with true
    by (symmetry; apply Z.ltb_lt; lia).
  simpl. unfold Ok. f_equal. lia.
Qed.

Lemma norm_index_out n (i : nat) :
  (n <= i)%nat → norm_index n (Z.of_nat i) = Raise IndexError.
Proof.
  intros Hi. unfold norm_index.
  replace (Z.of_nat i <? Z.of_nat n)%Z with false
    by (symmetry; apply Z.ltb_ge; lia).
  replace (Z.of_nat i <? 0)%Z with false by (symmetry; apply Z.ltb_ge; lia).
  by rewrite !andb_false_r.
Qed.

(** ** The array operations on a three-dimensional array *)

Lemma update_col_ok n m k its j c f :
  norm_index k j = Ok c →
  update_col (mkArray [n; m; k] its) j f
  = Ok (mkArray [n; m; k] (map_rows (alter f c) its)).
Proof. intros Hc. unfold update_col, axis2. simpl. by rewrite Hc. Qed.

Lemma update_col_err n m k its j e f :
  norm_index k j = Raise e →
  update_col (mkArray [n; m; k] its) j f = Raise e.
Proof. intros Hc. unfold update_col, axis2. simpl. by rewrite Hc. Qed.

Lemma map_rows_compose f g a :
  map_rows f (map_rows g a) = map_rows (f ∘ g) a.
Proof.
  unfold map_rows. rewrite <- list_fmap_compose.
  apply list_fmap_ext. intros i c _. simpl.
  by rewrite <- list_fmap_compose.
Qed.

Lemma map_rows_ext f g a :
  Forall (Forall (fun p => f p = g p)) a → map_rows f a = map_rows g a.
Proof.
  intros H. unfold map_rows. apply Forall_fmap_ext.
  eapply Forall_impl; [exact H|]. intros c Hc. by apply Forall_fmap_ext.
Qed.

Lemma zeros_set_last n m k z :
  map_rows (alter (fun _ => z) k)
    (replicate n (replicate m (replicate (k + 1) 0)))
  = replicate n (replicate m (replicate k 0 ++ [z])).
Proof.
  unfold map_rows. rewrite !fmap_replicate. do 2 f_equal.
  rewrite replicate_add. simpl.
  rewrite <- (Nat.add_0_r k) at 1.
  rewrite <- (length_replicate k 0) at 1.
  by rewrite alter_app_r.
Qed.

Lemma assign_rows n m k z a :
  rect n m k a →
  zip_with (zip_with (fun ra rb : list Q => rb ++ drop (length rb) ra))
    (replicate n (replicate m (replicate k 0 ++ [z]))) a
  = map_rows (fun pt => pt ++ [z]) a.
Proof.
  intros [Hn Hall]. rewrite zip_with_replicate_l by lia.
  unfold map_rows. apply Forall_fmap_ext.
  eapply Forall_impl; [exact Hall|]. intros c [Hm Hc]. simpl.
  rewrite zip_with_replicate_l by lia.
  apply Forall_fmap_ext.
  eapply Forall_impl; [exact Hc|]. intros p Hp. simpl. f_equal.
  rewrite <- (length_replicate k 0) in Hp. rewrite Hp.
  by rewrite drop_app_length.
Qed.

(** ** The result of polyline_2d_to_3d on a rectangular input *)

Lemma polyline_2d_to_3d_rect p md z n m k :
  (0 < n)%nat → (0 < m)%nat → (0 < k)%nat → rect n m k (points p) →
  polyline_2d_to_3d p md z
  = Ok (mkPolyline3D (map_rows (lift_point md z) (points p)) (label p)).
Proof.
  intros Hn Hm Hk Hr. unfold polyline_2d_to_3d.
  rewrite (np_array_rect n m k) by done.
  cbn [bind Ok shape tuple_get lookup list_lookup].
  unfold np_zeros.
  rewrite (update_col_ok _ _ _ _ _ k) by apply norm_index_last.
  cbn [bind Ok]. rewrite zeros_set_last.
  unfold assign_init. cbn [shape items].
  replace (k + 1 - 1)%nat with k by lia. rewrite !Nat.eqb_refl.
  cbn [andb bind Ok]. rewrite (assign_rows n m k) by done.
  rewrite (update_col_ok _ _ _ _ 1 1%nat) by (apply (norm_index_nonneg _ 1); lia).
  cbn [bind Ok].
  rewrite (update_col_ok _ _ _ _ 1 1%nat) by (apply (norm_index_nonneg _ 1); lia).
  cbn [bind Ok].
  rewrite (update_col_ok _ _ _ _ 0 0%nat) by (apply (norm_index_nonneg _ 0); lia).
  cbn [bind Ok].
  rewrite (update_col_ok _ _ _ _ 1 1%nat) by (apply (norm_index_nonneg _ 1); lia).
  cbn [bind Ok].
  rewrite (update_col_ok _ _ _ _ 0 0%nat) by (apply (norm_index_nonneg _ 0); lia).
  cbn [bind Ok].
  rewrite (update_col_ok _ _ _ _ 1 1%nat) by (apply (norm_index_nonneg _ 1); lia).
  cbn [bind Ok tolist items].
  by rewrite !map_rows_compose.
Qed.

(** ** When polyline_2d_to_3d raises *)

Lemma np_array_items a arr : np_array a = Ok arr → items arr = a.
Proof.
  unfold np_array, Ok, Raise.
  destruct a as [|[|p0 c0] a']; repeat case_match; intros; by simplify_eq.
Qed.

(** The three shapes [np.array] can find in a list of chains. *)
Lemma np_array_shape a arr :
  np_array a = Ok arr →
  (a = [] ∧ shape arr = [0%nat]) ∨
  (∃ n, (0 < n)%nat ∧ shape arr = [n; 0%nat] ∧ rect n 0 0 a) ∨
  (∃ n m k, (0 < n)%nat ∧ (0 < m)%nat ∧ shape arr = [n; m; k] ∧ rect n m k a).
Proof.
  unfold np_array, Ok, Raise.
  destruct a as [|[|p0 c0] a'].
  - intros ?; simplify_eq. by left.
  - case_match eqn:Hall; intros ?; simplify_eq.
    right; left. exists (S (length a')). simpl.
    split_and!; [lia|done|]. split; [done|].
    rewrite forallb_forall in Hall. apply Forall_forall. intros c Hc.
    apply list_elem_of_In, Hall, Nat.eqb_eq in Hc.
    destruct c; [|done]. by split.
  - case_match eqn:Hall; intros ?; simplify_eq.
    right; right. exists (S (length a')), (S (length c0)), (length p0). simpl.
    split_and!; [lia|lia|done|]. split; [done|].
    by apply conforms_rect.
Qed.

Lemma np_array_raise a e : np_array a = Raise e → e = ValueError.
Proof.
  unfold np_array, Ok, Raise.
  destruct a as [|[|p0 c0] a']; repeat case_match; intros; by simplify_eq.
Qed.

Lemma polyline_2d_to_3d_no_chain p md z :
  points p = [] → polyline_2d_to_3d p md z = Raise IndexError.
Proof. intros H. unfold polyline_2d_to_3d. by rewrite H. Qed.

Lemma polyline_2d_to_3d_no_coordinate p md z n m :
  (0 < n)%nat → (0 < m)%nat → rect n m 0 (points p) →
  polyline_2d_to_3d p md z = Raise IndexError.
Proof.
  intros Hn Hm Hr. unfold polyline_2d_to_3d.
  rewrite (np_array_rect n m 0) by done.
  cbn [bind Ok shape tuple_get lookup list_lookup].
  unfold np_zeros.
  rewrite (update_col_ok _ _ _ _ _ 0%nat) by apply (norm_index_last 0).
  cbn [bind Ok]. rewrite (zeros_set_last n m 0).
  unfold assign_init. cbn [shape items].
  rewrite !Nat.eqb_refl.
  cbn [andb bind Ok Nat.sub Nat.add Nat.eqb].
  rewrite (update_col_err _ _ _ _ _ IndexError); [done|].
  apply (norm_index_out 1 1). lia.
Qed.

(** A result is returned only for a rectangular input with at least one
    chain, one point per chain and one coordinate per point. *)
Lemma polyline_2d_to_3d_ok_rect p md z r :
  polyline_2d_to_3d p md z = Ok r →
  ∃ n m k, (0 < n)%nat ∧ (0 < m)%nat ∧ (0 < k)%nat ∧ rect n m k (points p).
Proof.
  intros Hrun.
  destruct (np_array (points p)) as [e|arr] eqn:Harr.
  { unfold polyline_2d_to_3d in Hrun. by rewrite Harr in Hrun. }
  apply np_array_shape in Harr as Hshape.
  destruct Hshape as [[Hnil Hs]|[(n & Hn & Hs & Hr)|(n & m & k & Hn & Hm & Hs & Hr)]].
  - by rewrite polyline_2d_to_3d_no_chain in Hrun.
  - unfold polyline_2d_to_3d in Hrun. rewrite Harr in Hrun.
    cbn [bind Ok] in Hrun. rewrite Hs in Hrun. by cbn in Hrun.
  - destruct k as [|k].
    + by rewrite (polyline_2d_to_3d_no_coordinate p md z n m) in Hrun.
    + exists n, m, (S k). split_and!; [done|done|lia|done].
Qed.

(** ** Points of a list of chains *)

Lemma point_at_map_rows g a i j :
  point_at (map_rows g a) i j = g <$> point_at a i j.
Proof.
  unfold point_at, map_rows. rewrite list_lookup_fmap.
  destruct (a !! i) as [c|]; simpl; [|done].
  by rewrite list_lookup_fmap.
Qed.

Lemma rect_point_at n m k a i j pt :
  rect n m k a → point_at a i j = Some pt → length pt = k.
Proof.
  intros [_ Hall] Hpt. unfold point_at in Hpt.
  destruct (a !! i) as [c|] eqn:Hc; [|done].
  rewrite Forall_lookup in Hall. destruct (Hall _ _ Hc) as [_ Hps].
  rewrite Forall_lookup in Hps. by eapply Hps.
Qed.

(** The output row of a point with two coordinates. *)
Lemma lift_point_2 md z u v :
  lift_point md z [u; v]
  = [u * (fst (max_bound md) - fst (min_bound md)) + fst (min_bound md);
     (v * (-1 # 1) + 1) * (snd (max_bound md) - snd (min_bound md))
       + snd (min_bound md);
     z].
Proof. reflexivity. Qed.

Lemma length_2_inv (pt : list Q) : length pt = 2%nat → ∃ u v, pt = [u; v].
Proof. destruct pt as [|u [|v [|? ?]]]; intros ?; simplify_eq/=; eauto. Qed.

(** ** Properties of polyline_2d_to_3d *)

(** C1.  On a polyline whose chains all have the same positive length [m]
    and whose points all have two coordinates, the call returns, and the
    output point at the place of the input point [(u, v)] is
    [(u * (max_x - min_x) + min_x, (1 - v) * (max_y - min_y) + min_y,
    plane_height)]. *)
Theorem back_projection_formula p md z n m :
  (0 < m)%nat → rect n m 2 (points p) →
  ∀ i j pt, point_at (points p) i j = Some pt →
  ∃ r u v x y,
    pt = [u; v] ∧
    polyline_2d_to_3d p md z = Ok r ∧
    point_at (points3d r) i j = Some [x; y; z] ∧
    x == u * (fst (max_bound md) - fst (min_bound md)) + fst (min_bound md) ∧
    y == (1 - v) * (snd (max_bound md) - snd (min_bound md))
         + snd (min_bound md).
Proof.
  intros Hm Hr i j pt Hpt.
  assert (0 < n)%nat as Hn.
  { destruct Hr as [<- _]. unfold point_at in Hpt.
    destruct (points p !! i) eqn:Hi; [|done].
    apply lookup_lt_Some in Hi. lia. }
  destruct (length_2_inv pt) as (u & v & ->);
    [by eapply rect_point_at|].
  eexists _, u, v, _, _. split; [done|].
  split; [by apply (polyline_2d_to_3d_rect p md z n m 2); try lia|].
  cbn [points3d]. rewrite point_at_map_rows, Hpt. cbn [fmap option_fmap option_map].
  rewrite lift_point_2. split; [done|]. split; [reflexivity|]. ring.
Qed.

(** C5.  Every point returned for a well-formed polyline has the plane
    height as its z-coordinate. *)
Theorem constant_z p md z n m :
  (0 < n)%nat → (0 < m)%nat → rect n m 2 (points p) →
  ∃ r, polyline_2d_to_3d p md z = Ok r ∧
       Forall (Forall (fun pt => pt !! 2%nat = Some z)) (points3d r).
Proof.
  intros Hn Hm Hr. eexists. split.
  { by apply (polyline_2d_to_3d_rect p md z n m 2); try lia. }
  cbn [points3d]. unfold map_rows. destruct Hr as [_ Hall].
  apply Forall_fmap. eapply Forall_impl; [exact Hall|].
  intros c [_ Hc]. simpl. apply Forall_fmap.
  eapply Forall_impl; [exact Hc|]. intros pt Hlen. simpl.
  by destruct (length_2_inv pt Hlen) as (u & v & ->).
Qed.

(** C6.  The polyline returned for a well-formed input carries the label
    of the input, has as many chains as the input, and each of its chains
    has as many points as the input chain at the same place. *)
Theorem shape_and_label_preserved p md z n m :
  (0 < n)%nat → (0 < m)%nat → rect n m 2 (points p) →
  ∃ r, polyline_2d_to_3d p md z = Ok r ∧
       label3d r = label p ∧
       length (points3d r) = length (points p) ∧
       Forall2 (fun c3 c2 => length c3 = length c2) (points3d r) (points p).
Proof.
  intros Hn Hm Hr. eexists. split.
  { by apply (polyline_2d_to_3d_rect p md z n m 2); try lia. }
  cbn [points3d label3d]. unfold map_rows.
  split; [done|]. split; [by rewrite length_fmap|].
  apply Forall2_fmap_l, Forall_Forall2_diag, Forall_forall.
  intros c _. simpl. by rewrite length_fmap.
Qed.

(** The binary64 row operations on the corner points give the corner
    mapping as the exact ones do. *)
Example corner_run64 :
  lift_point64 lo64 hi64 height64 [binary64 0 0; binary64 0 0]
  = [binary64 0 0; binary64 20 0; height64] ∧
  lift_point64 lo64 hi64 height64 [binary64 1 0; binary64 1 0]
  = [binary64 10 0; binary64 0 0; height64].
Proof. split; vm_compute; reflexivity. Qed.



(** C9.  The result does not depend on [metadata.width] and
    [metadata.height]. *)
Theorem width_height_unused p md1 md2 z :
  min_bound md1 = min_bound md2 → max_bound md1 = max_bound md2 →
  polyline_2d_to_3d p md1 z = polyline_2d_to_3d p md2 z.
Proof.
  intros Hmin Hmax. unfold polyline_2d_to_3d. by rewrite Hmin, Hmax.
Qed.

(** C10.  A polyline with two chains of different lengths is rejected: the
    call raises (the ValueError of [np.array]) and returns no polyline. *)
Theorem ragged_chains_raise p md z c1 c2 :
  c1 ∈ points p → c2 ∈ points p → length c1 ≠ length c2 →
  polyline_2d_to_3d p md z = Raise ValueError.
Proof.
  intros H1 H2 Hne.
  destruct (np_array (points p)) as [e|arr] eqn:Harr.
  - apply np_array_raise in Harr as He. subst e.
    unfold polyline_2d_to_3d. by rewrite Harr.
  - exfalso. apply Hne.
    assert (∃ n m k, rect n m k (points p)) as (n & m & k & _ & Hall).
    { apply np_array_shape in Harr
        as [[Hnil _]|[(n & _ & _ & Hr)|(n & m & k & _ & _ & _ & Hr)]];
        [|by eauto..].
      rewrite Hnil in H1. by apply elem_of_nil in H1. }
    rewrite Forall_forall in Hall.
    destruct (Hall _ H1) as [-> _]. by destruct (Hall _ H2) as [-> _].
Qed.

(** C2.  Empty input is not handled: with no chain, or with an empty chain,
    the call raises instead of returning an empty polyline. *)
Theorem empty_input_raises p md z :
  points p = [] ∨ [] ∈ points p →
  ∃ e, polyline_2d_to_3d p md z = Raise e.
Proof.
  intros Hempty.
  destruct (polyline_2d_to_3d p md z) as [e|r] eqn:Hrun; [by exists e|].
  exfalso.
  apply polyline_2d_to_3d_ok_rect in Hrun
    as (n & m & k & Hn & Hm & _ & Hlen & Hall).
  destruct Hempty as [Hnil|Hin].
  - rewrite Hnil in Hlen. simpl in Hlen. lia.
  - rewrite Forall_forall in Hall. destruct (Hall _ Hin) as [Hm0 _].
    simpl in Hm0. lia.
Qed.

Example no_chain_run :
  polyline_2d_to_3d no_chain_polyline corner_metadata (-16 # 10)
  = Raise IndexError.
Proof. reflexivity. Qed.

Example empty_chains_run :
  polyline_2d_to_3d empty_chains_polyline corner_metadata (-16 # 10)
  = Raise IndexError.
Proof. reflexivity. Qed.

Example some_empty_chain_run :
  polyline_2d_to_3d some_empty_chain_polyline corner_metadata (-16 # 10)
  = Raise ValueError.
Proof. reflexivity. Qed.

Example ragged_run :
  polyline_2d_to_3d ragged_polyline corner_metadata (-16 # 10)
  = Raise ValueError.
Proof. reflexivity. Qed.

Example no_coordinate_run :
  polyline_2d_to_3d no_coordinate_polyline corner_metadata (-16 # 10)
  = Raise IndexError.
Proof. reflexivity. Qed.

(** C3, as stated, fails: points with one or with three coordinates are
    accepted.  With three coordinates the third is kept and the plane
    height becomes a fourth; with one coordinate the column at index 1 is
    the plane height itself, which the operations on that column change. *)
Lemma extra_coordinates_accepted :
  polyline_2d_to_3d three_coordinate_polyline corner_metadata (-2)
  = Ok (mkPolyline3D [[[10; 20; 7; -2]; [0; 0; 9; -2]]] "lane") ∧
  polyline_2d_to_3d one_coordinate_polyline corner_metadata (-2)
  = Ok (mkPolyline3D [[[10; 60]; [0; 60]]] "lane") ∧
  ¬ (∃ e, polyline_2d_to_3d three_coordinate_polyline corner_metadata (-2)
          = Raise e) ∧
  ¬ (∃ e, polyline_2d_to_3d one_coordinate_polyline corner_metadata (-2)
          = Raise e).
Proof.
  split_and!; [by vm_compute|by vm_compute| |]; intros [e He];
    vm_compute in He; discriminate He.
Qed.

Lemma length_lift_point md z pt :
  length (lift_point md z pt) = (length pt + 1)%nat.
Proof.
  unfold lift_point, row_ops. rewrite !length_alter, length_app. simpl. lia.
Qed.

(** C3, amended.  On a rectangular input whose points have [k ≠ 2]
    coordinates the call raises only for [k = 0]; for [k ≥ 1] it returns
    points of [k + 1] coordinates, and a point [(u, v, ...)] of three or
    more coordinates comes back with its first two coordinates
    back-projected, the others unchanged and the plane height appended. *)
Theorem other_dimensions p md z n m k :
  (0 < n)%nat → (0 < m)%nat → k ≠ 2%nat → rect n m k (points p) →
  (k = 0%nat → polyline_2d_to_3d p md z = Raise IndexError) ∧
  ((0 < k)%nat →
   ∃ r, polyline_2d_to_3d p md z = Ok r ∧
        Forall (Forall (fun pt => length pt = (k + 1)%nat)) (points3d r) ∧
        ∀ i j u v rest,
          point_at (points p) i j = Some (u :: v :: rest) →
          ∃ x y,
            point_at (points3d r) i j = Some (x :: y :: rest ++ [z]) ∧
            x == u * (fst (max_bound md) - fst (min_bound md))
                 + fst (min_bound md) ∧
            y == (1 - v) * (snd (max_bound md) - snd (min_bound md))
                 + snd (min_bound md)).
Proof.
  intros Hn Hm _ Hr. split.
  - intros ->. by apply (polyline_2d_to_3d_no_coordinate p md z n m).
  - intros Hk. eexists. split.
    { by apply (polyline_2d_to_3d_rect p md z n m k). }
    cbn [points3d]. split.
    + unfold map_rows. destruct Hr as [_ Hall].
      apply Forall_fmap. eapply Forall_impl; [exact Hall|].
      intros c [_ Hc]. simpl. apply Forall_fmap.
      eapply Forall_impl; [exact Hc|]. intros pt Hlen. simpl.
      by rewrite length_lift_point, Hlen.
    + intros i j u v rest Hpt. eexists _, _.
      rewrite point_at_map_rows, Hpt.
      split; [reflexivity|]. split; [reflexivity|]. ring.
Qed.

(** ** The grouping loop *)

Lemma group_loop_cons sp md g rest z m0 :
  group_loop ((sp, md, g) :: rest) z m0
  = (c <- convert_sample sp md z ;;
     group_loop rest z (<[g := mkPolylines c]> m0)).
Proof. reflexivity. Qed.

(** The loop fails only by an exception of a conversion. *)
Lemma group_loop_total es z (m0 : gmap string (Polylines Polyline3D)) :
  Forall (convertible z) es → ∃ m, group_loop es z m0 = Ok m.
Proof.
  intros Hall. revert m0.
  induction Hall as [|[[sp md] g] rest [c Hc] _ IH]; intros m0.
  - by exists m0.
  - rewrite group_loop_cons. simpl in Hc. rewrite Hc. apply IH.
Qed.

Lemma group_loop_dom es z (m0 m : gmap string (Polylines Polyline3D)) :
  group_loop es z m0 = Ok m →
  dom m = dom m0 ∪ list_to_set (group_id <$> es).
Proof.
  revert m0. induction es as [|[[sp md] g] rest IH]; intros m0 Hrun.
  - injection Hrun as ->.
    by rewrite fmap_nil, list_to_set_nil, (right_id_L ∅ (∪)).
  - rewrite group_loop_cons in Hrun.
    destruct (convert_sample sp md z) as [e|c]; [done|].
    apply IH in Hrun. rewrite Hrun, dom_insert_L.
    rewrite fmap_cons, list_to_set_cons. unfold group_id at 2. simpl.
    by rewrite (assoc_L (∪)), (comm_L (∪) (dom m0)).
Qed.

(** Keys that no entry carries keep their binding. *)
Lemma group_loop_other es z (m0 m : gmap string (Polylines Polyline3D)) g :
  group_loop es z m0 = Ok m → g ∉ group_id <$> es → m !! g = m0 !! g.
Proof.
  revert m0. induction es as [|[[sp md] g'] rest IH]; intros m0 Hrun Hg.
  - by injection Hrun as ->.
  - rewrite group_loop_cons in Hrun.
    destruct (convert_sample sp md z) as [e|c]; [done|].
    rewrite fmap_cons in Hg. apply not_elem_of_cons in Hg as [Hne Hg].
    unfold group_id in Hne. simpl in Hne.
    rewrite (IH _ Hrun Hg). by rewrite lookup_insert_ne.
Qed.

(** A key is bound to the collection of the last entry that carries it. *)
Lemma group_loop_last pre sp md g post z
    (m0 m : gmap string (Polylines Polyline3D)) :
  group_loop (pre ++ (sp, md, g) :: post) z m0 = Ok m →
  g ∉ group_id <$> post →
  ∃ c, convert_sample sp md z = Ok c ∧ m !! g = Some (mkPolylines c).
Proof.
  revert m0. induction pre as [|[[sp' md'] g'] pre IH]; intros m0 Hrun Hg.
  - simpl app in Hrun. rewrite group_loop_cons in Hrun.
    destruct (convert_sample sp md z) as [e|c]; [done|].
    exists c. split; [done|].
    rewrite (group_loop_other _ _ _ _ _ Hrun Hg). by rewrite lookup_insert_eq.
  - simpl app in Hrun. rewrite group_loop_cons in Hrun.
    destruct (convert_sample sp' md' z) as [e|c']; [done|].
    by apply (IH _ Hrun).
Qed.

Lemma size_list_to_set_le (l : list string) :
  (size (list_to_set (C := gset string) l) ≤ length l)%nat.
Proof.
  induction l as [|x l IH]; [done|].
  rewrite list_to_set_cons, size_union_alt, size_singleton. simpl.
  assert (size (list_to_set (C := gset string) l ∖ {[x]})
          ≤ size (list_to_set (C := gset string) l))%nat as Hle
    by (by apply subseteq_size, subseteq_difference_l).
  lia.
Qed.

(** A repeated key leaves fewer keys than entries. *)
Lemma size_list_to_set_dup (a b c : list string) g :
  (size (list_to_set (C := gset string) (a ++ g :: b ++ g :: c))
   < length (a ++ g :: b ++ g :: c))%nat.
Proof.
  assert (list_to_set (C := gset string) (a ++ g :: b ++ g :: c)
          = list_to_set (a ++ b ++ g :: c)) as ->.
  { apply set_eq. intros x. rewrite !elem_of_list_to_set.
    rewrite !elem_of_app, !elem_of_cons, !elem_of_app, !elem_of_cons.
    tauto. }
  pose proof (size_list_to_set_le (a ++ b ++ g :: c)) as Hle.
  rewrite !length_app in *. simpl in *. rewrite !length_app in *. simpl.
  lia.
Qed.

(** ** Properties of the grouping loop *)

(** C4.  For a batch with pairwise distinct group identifiers the output
    mapping has exactly one key per entry, the keys are the group
    identifiers of the entries, each bound to the converted collection of
    its entry, and an entry without 2D polylines is bound to the empty
    collection.  The loop returns a mapping whenever every polyline of the
    batch is one [polyline_2d_to_3d] accepts. *)
Theorem batch_completeness all_polylines metadatas group_ids z :
  let entries := zip3 all_polylines metadatas group_ids in
  NoDup (group_id <$> entries) →
  (Forall (convertible z) entries →
   ∃ m, load_annotation all_polylines metadatas group_ids z = Ok m) ∧
  ∀ m, load_annotation all_polylines metadatas group_ids z = Ok m →
    size m = length entries ∧
    dom m = list_to_set (group_id <$> entries) ∧
    (∀ sp md g, (sp, md, g) ∈ entries →
       ∃ c, convert_sample sp md z = Ok c ∧ m !! g = Some (mkPolylines c)) ∧
    (∀ md g, (None, md, g) ∈ entries → m !! g = Some (mkPolylines [])).
Proof.
  intros entries Hnodup. unfold load_annotation. fold entries.
  split; [apply group_loop_total|].
  intros m Hrun.
  assert (dom m = list_to_set (group_id <$> entries)) as Hdom.
  { rewrite (group_loop_dom _ _ _ _ Hrun), dom_empty_L.
    by rewrite (left_id_L ∅ (∪)). }
  assert (∀ sp md g, (sp, md, g) ∈ entries →
            ∃ c, convert_sample sp md z = Ok c
                 ∧ m !! g = Some (mkPolylines c)) as Hbound.
  { intros sp md g Hin.
    apply list_elem_of_split in Hin as (pre & post & Hsplit).
    rewrite Hsplit in Hrun, Hnodup.
    apply (group_loop_last _ _ _ _ _ _ _ _ Hrun).
    rewrite fmap_app, fmap_cons in Hnodup.
    apply NoDup_app in Hnodup as (_ & _ & Hnd).
    by apply NoDup_cons in Hnd as [Hnotin _]. }
  split_and!; [|done|done|].
  - rewrite <- size_dom, Hdom, size_list_to_set by done.
    by rewrite length_fmap.
  - intros md g Hin. destruct (Hbound _ _ _ Hin) as (c & Hc & Hm).
    simpl in Hc. by injection Hc as <-.
Qed.

(** C8.  When two entries carry the same group identifier the loop does
    not fail for that: the identifier is one key of the output mapping,
    bound to the collection of the last entry that carries it, and the
    mapping has fewer keys than the batch has entries. *)
Theorem colliding_ids_overwrite all_polylines metadatas group_ids z
    pre sp1 md1 mid sp2 md2 g post :
  zip3 all_polylines metadatas group_ids
  = pre ++ (sp1, md1, g) :: mid ++ (sp2, md2, g) :: post →
  g ∉ group_id <$> post →
  (Forall (convertible z) (zip3 all_polylines metadatas group_ids) →
   ∃ m, load_annotation all_polylines metadatas group_ids z = Ok m) ∧
  ∀ m, load_annotation all_polylines metadatas group_ids z = Ok m →
    (∃ c2, convert_sample sp2 md2 z = Ok c2 ∧
           m !! g = Some (mkPolylines c2)) ∧
    dom m = list_to_set (group_id <$> zip3 all_polylines metadatas group_ids) ∧
    (size m < length (zip3 all_polylines metadatas group_ids))%nat.
Proof.
  intros Hsplit Hlast. unfold load_annotation.
  split; [apply group_loop_total|].
  intros m Hrun.
  assert (dom m
          = list_to_set (group_id <$> zip3 all_polylines metadatas group_ids))
    as Hdom.
  { rewrite (group_loop_dom _ _ _ _ Hrun), dom_empty_L.
    by rewrite (left_id_L ∅ (∪)). }
  split_and!; [|done|].
  - rewrite Hsplit in Hrun.
    change (pre ++ (sp1, md1, g) :: mid ++ (sp2, md2, g) :: post)
      with (pre ++ ((sp1, md1, g) :: mid) ++ (sp2, md2, g) :: post) in Hrun.
    rewrite (assoc_L (++)) in Hrun.
    by apply (group_loop_last _ _ _ _ _ _ _ _ Hrun).
  - rewrite <- size_dom, Hdom, Hsplit.
    rewrite <- (length_fmap group_id).
    rewrite fmap_app, fmap_cons, fmap_app, fmap_cons.
    apply size_list_to_set_dup.
Qed.

(** ** The theorems at concrete inputs *)

Lemma corner_rect : rect 1 2 2 (points corner_polyline).
Proof. split; [reflexivity|]. repeat constructor. Qed.

(** The corner mapping of the specification: with bounds [(0, 0)] and
    [(10, 20)] and plane height [-1.6], the point [(0, 0)] goes to
    [(0, 20, -1.6)] and the point [(1, 1)] to [(10, 0, -1.6)]. *)
Lemma back_projection_formula_witness :
  (0 < 2)%nat ∧ rect 1 2 2 (points corner_polyline) ∧
  ∃ r x0 y0 x1 y1,
    polyline_2d_to_3d corner_polyline corner_metadata (-16 # 10) = Ok r ∧
    point_at (points3d r) 0 0 = Some [x0; y0; -16 # 10] ∧
    x0 == 0 ∧ y0 == 20 ∧
    point_at (points3d r) 0 1 = Some [x1; y1; -16 # 10] ∧
    x1 == 10 ∧ y1 == 0.
Proof.
  split; [lia|]. split; [exact corner_rect|].
  destruct (back_projection_formula corner_polyline corner_metadata
              (-16 # 10) 1 2 ltac:(lia) corner_rect 0 0 [0; 0] eq_refl)
    as (r & u & v & x0 & y0 & Hpt & Hrun & Hout & Hx & Hy).
  destruct (back_projection_formula corner_polyline corner_metadata
              (-16 # 10) 1 2 ltac:(lia) corner_rect 0 1 [1; 1] eq_refl)
    as (r' & u' & v' & x1 & y1 & Hpt' & Hrun' & Hout' & Hx' & Hy').
  rewrite Hrun in Hrun'. injection Hrun' as <-.
  injection Hpt as <- <-. injection Hpt' as <- <-.
  exists r, x0, y0, x1, y1.
  split_and!; [done|done| |  |done| | ].
  - by rewrite Hx.
  - by rewrite Hy.
  - by rewrite Hx'.
  - by rewrite Hy'.
Defined.

Lemma constant_z_witness :
  (0 < 1)%nat ∧ (0 < 2)%nat ∧ rect 1 2 2 (points corner_polyline) ∧
  ∃ r, polyline_2d_to_3d corner_polyline corner_metadata (-16 # 10) = Ok r ∧
       Forall (Forall (fun pt => pt !! 2%nat = Some (-16 # 10))) (points3d r).
Proof.
  split; [lia|]. split; [lia|]. split; [exact corner_rect|].
  apply (constant_z corner_polyline corner_metadata (-16 # 10) 1 2);
    [lia|lia|exact corner_rect].
Defined.

Lemma shape_and_label_preserved_witness :
  (0 < 1)%nat ∧ (0 < 2)%nat ∧ rect 1 2 2 (points corner_polyline) ∧
  ∃ r, polyline_2d_to_3d corner_polyline corner_metadata (-16 # 10) = Ok r ∧
       label3d r = "lane"%string ∧
       length (points3d r) = 1%nat ∧
       Forall2 (fun c3 c2 => length c3 = length c2)
         (points3d r) (points corner_polyline).
Proof.
  split; [lia|]. split; [lia|]. split; [exact corner_rect|].
  apply (shape_and_label_preserved corner_polyline corner_metadata
           (-16 # 10) 1 2); [lia|lia|exact corner_rect].
Defined.

Lemma midpoint_rect : rect 2 2 2 (points midpoint_polyline).
Proof. split; [reflexivity|]. repeat constructor. Qed.



Lemma width_height_unused_witness :
  min_bound corner_metadata = min_bound other_size_metadata ∧
  max_bound corner_metadata = max_bound other_size_metadata ∧
  width corner_metadata ≠ width other_size_metadata ∧
  polyline_2d_to_3d corner_polyline corner_metadata (-16 # 10)
  = polyline_2d_to_3d corner_polyline other_size_metadata (-16 # 10).
Proof.
  split; [reflexivity|]. split; [reflexivity|]. split; [discriminate|].
  apply (width_height_unused corner_polyline corner_metadata
           other_size_metadata (-16 # 10)); reflexivity.
Defined.

Lemma ragged_chains_raise_witness :
  polyline_2d_to_3d ragged_polyline corner_metadata (-16 # 10)
  = Raise ValueError.
Proof.
  apply (ragged_chains_raise ragged_polyline corner_metadata (-16 # 10)
           [[0; 0]; [1; 1]] [[0; 1]]).
  - left.
  - right. left.
  - simpl. lia.
Defined.

Lemma empty_input_raises_witness :
  points no_chain_polyline = [] ∧
  ∃ e, polyline_2d_to_3d no_chain_polyline corner_metadata (-16 # 10)
       = Raise e.
Proof.
  split; [reflexivity|].
  apply (empty_input_raises no_chain_polyline corner_metadata (-16 # 10)).
  left. reflexivity.
Defined.

Lemma three_coordinate_rect : rect 1 2 3 (points three_coordinate_polyline).
Proof. split; [reflexivity|]. repeat constructor. Qed.

Lemma other_dimensions_witness :
  (0 < 1)%nat ∧ (0 < 2)%nat ∧ 3%nat ≠ 2%nat ∧
  rect 1 2 3 (points three_coordinate_polyline) ∧
  ∃ r, polyline_2d_to_3d three_coordinate_polyline corner_metadata (-2)
       = Ok r ∧
       Forall (Forall (fun pt => length pt = 4%nat)) (points3d r).
Proof.
  split; [lia|]. split; [lia|]. split; [lia|].
  split; [exact three_coordinate_rect|].
  destruct (other_dimensions three_coordinate_polyline corner_metadata (-2)
              1 2 3 ltac:(lia) ltac:(lia) ltac:(lia) three_coordinate_rect)
    as [_ Hok].
  destruct (Hok ltac:(lia)) as (r & Hrun & Hlen & _).
  by exists r.
Defined.

Lemma batch_ids_distinct :
  NoDup (group_id <$> zip3 batch_polylines batch_metadatas batch_ids).
Proof. apply (bool_decide_unpack _). vm_compute. exact I. Qed.

(** A batch of two entries, the second without 2D polylines: two keys, the
    second bound to the empty collection. *)
Lemma batch_completeness_witness :
  NoDup (group_id <$> zip3 batch_polylines batch_metadatas batch_ids) ∧
  ∃ m, load_annotation batch_polylines batch_metadatas batch_ids (-16 # 10)
       = Ok m ∧
       size m = 2%nat ∧
       m !! "g2"%string = Some (mkPolylines []).
Proof.
  split; [exact batch_ids_distinct|].
  destruct (batch_completeness batch_polylines batch_metadatas batch_ids
              (-16 # 10) batch_ids_distinct) as [Hreturns Hkeys].
  destruct Hreturns as [m Hrun].
  { repeat constructor; eexists; vm_compute; reflexivity. }
  destruct (Hkeys m Hrun) as (Hsize & _ & _ & Habsent).
  exists m. split_and!; [done|done|].
  apply (Habsent corner_metadata). right. left.
Defined.

(** Two entries with the identifier [g1], the later one without 2D
    polylines: one key, bound to the empty collection of the later entry. *)
Lemma colliding_ids_overwrite_witness :
  ∃ m, load_annotation batch_polylines batch_metadatas repeated_ids
         (-16 # 10) = Ok m ∧
       m !! "g1"%string = Some (mkPolylines []) ∧
       (size m < 2)%nat.
Proof.
  destruct (colliding_ids_overwrite batch_polylines batch_metadatas
              repeated_ids (-16 # 10)
              [] (Some (mkPolylines [corner_polyline])) corner_metadata
              [] None corner_metadata "g1"%string []
              eq_refl (not_elem_of_nil _)) as [Hreturns Hlater].
  destruct Hreturns as [m Hrun].
  { repeat constructor; eexists; vm_compute; reflexivity. }
  destruct (Hlater m Hrun) as ((c2 & Hc2 & Hm) & _ & Hsize).
  exists m. split_and!; [done| |done].
  simpl in Hc2. by injection Hc2 as <-.
Defined.

(** * Further properties of the code *)

(** ** When [np.array] accepts a list of chains *)

Lemma rect_np_array n m k a : rect n m k a → ∃ arr, np_array a = Ok arr.
Proof.
  intros [Hlen Hall]. unfold np_array.
  destruct a as [|[|p0 c0] a']; [by eexists| |].
  - pose proof (Forall_inv Hall) as [Hm _]. simpl in Hm. subst m.
    replace (forallb (fun c : list (list Q) => Nat.eqb (length c) 0)
               ([] :: a')) with true; [by eexists|].
    symmetry. apply forallb_forall. intros c Hc.
    apply list_elem_of_In in Hc. rewrite Forall_forall in Hall.
    apply Nat.eqb_eq. by destruct (Hall _ Hc).
  - pose proof (Forall_inv Hall) as [Hm Hps].
    pose proof (Forall_inv Hps) as Hk.
    rewrite Hm, Hk, (proj2 (conforms_rect m k _) Hall). by eexists.
Qed.

Lemma np_array_ok_rect a arr : np_array a = Ok arr → ∃ n m k, rect n m k a.
Proof.
  intros Harr.
  apply np_array_shape in Harr
    as [[-> _]|[(n & _ & _ & Hr)|(n & m & k & _ & _ & _ & Hr)]]; [|by eauto..].
  exists 0%nat, 0%nat, 0%nat. by split.
Qed.

(** Two shapes of one non-degenerate list of chains agree. *)
Lemma rect_unique n m k n' m' k' a :
  (0 < n)%nat → (0 < m)%nat → rect n m k a → rect n' m' k' a →
  n' = n ∧ m' = m ∧ k' = k.
Proof.
  intros Hn Hm [Hlen Hall] [Hlen' Hall'].
  destruct a as [|c0 a']; [simpl in Hlen; lia|].
  pose proof (Forall_inv Hall) as [Hc Hps].
  pose proof (Forall_inv Hall') as [Hc' Hps'].
  destruct c0 as [|p0 c0']; [simpl in Hc; lia|].
  pose proof (Forall_inv Hps) as Hk. pose proof (Forall_inv Hps') as Hk'.
  split_and!; congruence.
Qed.

Lemma polyline_2d_to_3d_value_error p md z :
  (¬ ∃ n m k, rect n m k (points p)) →
  polyline_2d_to_3d p md z = Raise ValueError.
Proof.
  intros Hnot. destruct (np_array (points p)) as [e|arr] eqn:Harr.
  - apply np_array_raise in Harr as He. subst e.
    unfold polyline_2d_to_3d. by rewrite Harr.
  - exfalso. apply Hnot. by eapply np_array_ok_rect.
Qed.

Lemma polyline_2d_to_3d_index_error p md z n m :
  rect n m 0 (points p) → polyline_2d_to_3d p md z = Raise IndexError.
Proof.
  intros Hr.
  destruct (decide (n = 0%nat)) as [->|Hn].
  { apply polyline_2d_to_3d_no_chain. destruct Hr as [Hlen _].
    by destruct (points p). }
  destruct (decide (m = 0%nat)) as [->|Hm].
  - destruct (rect_np_array _ _ _ _ Hr) as [arr Harr].
    apply np_array_shape in Harr as Hs.
    unfold polyline_2d_to_3d. rewrite Harr. cbn [bind Ok].
    destruct Hs as [[Hnil _]|[(n' & _ & -> & _)|(n' & m' & k' & Hn' & Hm' & _ & Hr')]].
    + destruct Hr as [Hlen _]. rewrite Hnil in Hlen. simpl in Hlen. lia.
    + by cbn.
    + destruct (rect_unique n' m' k' n 0 0 (points p)) as (_ & ? & _);
        [done..|lia].
  - apply (polyline_2d_to_3d_no_coordinate p md z n m); [lia|lia|done].
Qed.

(** The three outcomes of a call, by the shape of the input alone. *)
Lemma polyline_2d_to_3d_cases p md z :
  (polyline_2d_to_3d p md z = Raise ValueError
   ∧ ¬ ∃ n m k, rect n m k (points p)) ∨
  (polyline_2d_to_3d p md z = Raise IndexError
   ∧ ∃ n m, rect n m 0 (points p)) ∨
  (∃ n m k, (0 < n)%nat ∧ (0 < m)%nat ∧ (0 < k)%nat ∧ rect n m k (points p)
            ∧ polyline_2d_to_3d p md z
              = Ok (mkPolyline3D (map_rows (lift_point md z) (points p))
                      (label p))).
Proof.
  destruct (np_array (points p)) as [e|arr] eqn:Harr.
  - left. assert (¬ ∃ n m k, rect n m k (points p)) as Hnot.
    { intros (n & m & k & Hr). destruct (rect_np_array _ _ _ _ Hr) as [? Hok].
      by rewrite Hok in Harr. }
    split; [by apply polyline_2d_to_3d_value_error|done].
  - right. apply np_array_shape in Harr
      as [[Hnil _]|[(n & _ & _ & Hr)|(n & m & k & Hn & Hm & _ & Hr)]].
    + left. assert (rect 0 0 0 (points p)) as Hr by (by rewrite Hnil).
      split; [by eapply polyline_2d_to_3d_index_error|by eauto].
    + left. split; [by eapply polyline_2d_to_3d_index_error|by eauto].
    + destruct k as [|k].
      * left. split; [by eapply polyline_2d_to_3d_index_error|by eauto].
      * right. exists n, m, (S k).
        split_and!; [done|done|lia|done|].
        apply (polyline_2d_to_3d_rect p md z n m (S k)); [done|done|lia|done].
Qed.

(** X1.  The call returns a polyline exactly for a rectangular input with
    at least one chain, one point per chain and one coordinate per
    point. *)
Theorem returns_iff_rectangular p md z :
  (∃ r, polyline_2d_to_3d p md z = Ok r) ↔
  ∃ n m k, (0 < n)%nat ∧ (0 < m)%nat ∧ (0 < k)%nat ∧ rect n m k (points p).
Proof.
  split.
  - intros [r Hrun]. by eapply polyline_2d_to_3d_ok_rect.
  - intros (n & m & k & Hn & Hm & Hk & Hr). eexists.
    by apply (polyline_2d_to_3d_rect p md z n m k).
Qed.

(** X2.  The exception tells the defect of the input: ValueError exactly
    when the chains are not rectangular, IndexError exactly when they are
    rectangular without any coordinate (no chain, empty chains, or points
    of no coordinate). *)
Theorem exception_by_shape p md z :
  (polyline_2d_to_3d p md z = Raise ValueError
   ↔ ¬ ∃ n m k, rect n m k (points p)) ∧
  (polyline_2d_to_3d p md z = Raise IndexError
   ↔ ∃ n m, rect n m 0 (points p)).
Proof.
  split; split.
  - intros Hrun.
    destruct (polyline_2d_to_3d_cases p md z)
      as [[_ Hnot]|[[Hidx _]|(n & m & k & _ & _ & _ & _ & Hok)]];
      [done|unfold Raise, Ok in *; congruence..].
  - apply polyline_2d_to_3d_value_error.
  - intros Hrun.
    destruct (polyline_2d_to_3d_cases p md z)
      as [[Hval _]|[[_ Hr]|(n & m & k & _ & _ & _ & _ & Hok)]];
      [|done|]; unfold Raise, Ok in *; congruence.
  - intros (n & m & Hr). by eapply polyline_2d_to_3d_index_error.
Qed.

(** ** The points of a returned polyline *)

Lemma polyline_2d_to_3d_ok_points p md z r :
  polyline_2d_to_3d p md z = Ok r →
  points3d r = map_rows (lift_point md z) (points p) ∧ label3d r = label p.
Proof.
  intros Hrun.
  destruct (polyline_2d_to_3d_ok_rect _ _ _ _ Hrun)
    as (n & m & k & Hn & Hm & Hk & Hr).
  rewrite (polyline_2d_to_3d_rect p md z n m k) in Hrun by done.
  injection Hrun as <-. by split.
Qed.

Lemma polyline_2d_to_3d_ok_point p md z r i j :
  polyline_2d_to_3d p md z = Ok r →
  point_at (points3d r) i j = lift_point md z <$> point_at (points p) i j.
Proof.
  intros Hrun. destruct (polyline_2d_to_3d_ok_points _ _ _ _ Hrun) as [-> _].
  apply point_at_map_rows.
Qed.

(** With two coordinates or more the operations leave the appended plane
    height alone. *)
Lemma lift_point_app md z pt :
  (2 ≤ length pt)%nat → lift_point md z pt = row_ops md pt ++ [z].
Proof.
  intros Hlen. unfold lift_point, row_ops.
  repeat (rewrite alter_app_l by (rewrite ?length_alter; lia)).
  done.
Qed.

(** X4.  Each point is transformed on its own: the output point at a place
    is determined by the input point at that place, whatever the other
    points, the place and the shape of the polyline are. *)
Theorem point_locality p p' md z r r' i j i' j' :
  polyline_2d_to_3d p md z = Ok r →
  polyline_2d_to_3d p' md z = Ok r' →
  point_at (points p) i j = point_at (points p') i' j' →
  point_at (points3d r) i j = point_at (points3d r') i' j'.
Proof.
  intros Hrun Hrun' Heq.
  rewrite (polyline_2d_to_3d_ok_point _ _ _ _ _ _ Hrun).
  rewrite (polyline_2d_to_3d_ok_point _ _ _ _ _ _ Hrun').
  by rewrite Heq.
Qed.

(** X5.  With one coordinate per point the column at index 1 is the column
    of the plane height: the call returns points of two coordinates whose
    second is [(1 - plane_height) * (max_y - min_y) + min_y], and the plane
    height itself is not among the output coordinates. *)
Theorem one_coordinate_overwrites_height p md z n m :
  (0 < n)%nat → (0 < m)%nat → rect n m 1 (points p) →
  ∃ r, polyline_2d_to_3d p md z = Ok r ∧
       ∀ i j pt, point_at (points p) i j = Some pt →
         ∃ u x y, pt = [u] ∧
           point_at (points3d r) i j = Some [x; y] ∧
           x == u * (fst (max_bound md) - fst (min_bound md))
                + fst (min_bound md) ∧
           y == (1 - z) * (snd (max_bound md) - snd (min_bound md))
                + snd (min_bound md).
Proof.
  intros Hn Hm Hr. eexists. split.
  { apply (polyline_2d_to_3d_rect p md z n m 1); [done|done|lia|done]. }
  intros i j pt Hpt. cbn [points3d].
  pose proof (rect_point_at _ _ _ _ _ _ _ Hr Hpt) as Hlen.
  destruct pt as [|u [|? ?]]; simplify_eq/=.
  eexists u, _, _. split; [done|].
  rewrite point_at_map_rows, Hpt.
  split; [reflexivity|]. split; [reflexivity|]. ring.
Qed.

(** X9.  With two coordinates or more per point, every output point is the
    input point after the operations on its first two coordinates,
    followed by the plane height: two calls that differ in the plane
    height differ in the last coordinate only. *)
Theorem height_changes_last_coordinate_only p md z z' n m k :
  (0 < n)%nat → (0 < m)%nat → (2 ≤ k)%nat → rect n m k (points p) →
  ∃ r r',
    polyline_2d_to_3d p md z = Ok r ∧
    polyline_2d_to_3d p md z' = Ok r' ∧
    points3d r = map_rows (fun pt => row_ops md pt ++ [z]) (points p) ∧
    points3d r' = map_rows (fun pt => row_ops md pt ++ [z']) (points p) ∧
    map_rows (take k) (points3d r) = map_rows (take k) (points3d r').
Proof.
  intros Hn Hm Hk Hr.
  assert (∀ h, map_rows (lift_point md h) (points p)
               = map_rows (fun pt => row_ops md pt ++ [h]) (points p))
    as Hlift.
  { intros h. apply map_rows_ext. destruct Hr as [_ Hall].
    eapply Forall_impl; [exact Hall|]. intros c [_ Hc].
    eapply Forall_impl; [exact Hc|]. intros pt Hlen. simpl in *.
    apply lift_point_app. lia. }
  assert (∀ h, map_rows (take k)
                 (map_rows (fun pt => row_ops md pt ++ [h]) (points p))
               = map_rows (row_ops md) (points p)) as Htake.
  { intros h. rewrite map_rows_compose. apply map_rows_ext.
    destruct Hr as [_ Hall].
    eapply Forall_impl; [exact Hall|]. intros c [_ Hc].
    eapply Forall_impl; [exact Hc|]. intros pt Hlen. simpl in *.
    apply take_app_length'. unfold row_ops. by rewrite !length_alter. }
  eexists _, _. split.
  { apply (polyline_2d_to_3d_rect p md z n m k); [done|done|lia|done]. }
  split.
  { apply (polyline_2d_to_3d_rect p md z' n m k); [done|done|lia|done]. }
  cbn [points3d]. rewrite !Hlift, !Htake. done.
Qed.

(** ** The inner loop of load_annotation *)

Lemma convert_polylines_ok ps md z acc c :
  convert_polylines ps md z acc = Ok c ↔
  ∃ rs, c = acc ++ rs ∧
        Forall2 (fun p r => polyline_2d_to_3d p md z = Ok r) ps rs.
Proof.
  revert acc. induction ps as [|p ps IH]; intros acc; simpl.
  - split.
    + intros Hc. injection Hc as <-. exists []. by rewrite app_nil_r.
    + intros (rs & -> & Hrs). apply Forall2_nil_inv_l in Hrs as ->.
      by rewrite app_nil_r.
  - destruct (polyline_2d_to_3d p md z) as [e|r] eqn:Hp; simpl.
    + split; [done|]. intros (rs & _ & Hrs).
      apply Forall2_cons_inv_l in Hrs as (r & rs' & Hr & _ & _).
      unfold Ok in Hr. congruence.
    + rewrite IH. split.
      * intros (rs & -> & Hrs). exists (r :: rs).
        rewrite <- app_assoc. split; [done|]. by constructor.
      * intros (rs & -> & Hrs).
        apply Forall2_cons_inv_l in Hrs as (r' & rs' & Hr' & Hrs' & ->).
        unfold Ok in Hr'. rewrite Hp in Hr'. injection Hr' as <-.
        exists rs'. by rewrite <- app_assoc.
Qed.

Lemma convert_polylines_raise pre p post md z acc e :
  Forall (accepted md z) pre →
  polyline_2d_to_3d p md z = Raise e →
  convert_polylines (pre ++ p :: post) md z acc = Raise e.
Proof.
  intros Hpre Hp. revert acc.
  induction Hpre as [|q pre [r Hq] _ IH]; intros acc; simpl.
  - by rewrite Hp.
  - rewrite Hq. simpl. apply IH.
Qed.

(** X10.  A sample with 2D polylines is converted polyline by polyline:
    the collection returned has the converted polylines of the sample, as
    many and in the same order. *)
Theorem sample_order_preserved sp md z c :
  convert_sample (Some sp) md z = Ok c ↔
  Forall2 (fun p r => polyline_2d_to_3d p md z = Ok r) (polylines sp) c.
Proof.
  unfold convert_sample. rewrite convert_polylines_ok. split.
  - by intros (rs & -> & Hrs).
  - intros Hrs. by exists c.
Qed.

(** X11.  Inside a sample the first polyline that [polyline_2d_to_3d]
    rejects ends the conversion with its exception; the polylines after it
    are not looked at. *)
Theorem sample_first_rejection sp md z pre p post e :
  polylines sp = pre ++ p :: post →
  Forall (accepted md z) pre →
  polyline_2d_to_3d p md z = Raise e →
  convert_sample (Some sp) md z = Raise e.
Proof.
  intros Hsplit Hpre Hp. unfold convert_sample. rewrite Hsplit.
  by apply convert_polylines_raise.
Qed.

(** ** The outer loop of load_annotation *)

Lemma group_loop_convertible es z
    (m0 m : gmap string (Polylines Polyline3D)) :
  group_loop es z m0 = Ok m → Forall (convertible z) es.
Proof.
  revert m0. induction es as [|[[sp md] g] rest IH]; intros m0 Hrun.
  - constructor.
  - rewrite group_loop_cons in Hrun.
    destruct (convert_sample sp md z) as [e|c] eqn:Hc; [done|].
    constructor; [by exists c|]. by eapply IH.
Qed.

Lemma group_loop_raise pre sp md g post z
    (m0 : gmap string (Polylines Polyline3D)) e :
  Forall (convertible z) pre →
  convert_sample sp md z = Raise e →
  group_loop (pre ++ (sp, md, g) :: post) z m0 = Raise e.
Proof.
  intros Hpre He. revert m0.
  induction Hpre as [|[[sp' md'] g'] pre [c Hc] _ IH]; intros m0.
  - simpl app. rewrite group_loop_cons. by rewrite He.
  - simpl app. rewrite group_loop_cons. simpl in Hc. rewrite Hc. apply IH.
Qed.

(** X12.  The grouping loop returns a mapping exactly when every sample of
    the batch converts: one polyline that [polyline_2d_to_3d] rejects,
    in any group, leaves the whole batch without a result. *)
Theorem batch_returns_iff_convertible all_polylines metadatas group_ids z :
  (∃ m, load_annotation all_polylines metadatas group_ids z = Ok m) ↔
  Forall (convertible z) (zip3 all_polylines metadatas group_ids).
Proof.
  unfold load_annotation. split.
  - intros [m Hrun]. by eapply group_loop_convertible.
  - apply group_loop_total.
Qed.

(** X13.  The exception of the batch is the exception of the first sample
    that fails to convert, in the order of the batch. *)
Theorem batch_first_failure all_polylines metadatas group_ids z
    pre sp md g post e :
  zip3 all_polylines metadatas group_ids = pre ++ (sp, md, g) :: post →
  Forall (convertible z) pre →
  convert_sample sp md z = Raise e →
  load_annotation all_polylines metadatas group_ids z = Raise e.
Proof.
  intros Hsplit Hpre He. unfold load_annotation. rewrite Hsplit.
  by apply group_loop_raise.
Qed.

(** ** The zip of the three value lists *)

Lemma zip3_take {A B C : Type} (la : list A) (lb : list B) (lc : list C) :
  let k := (length la `min` (length lb `min` length lc))%nat in
  zip3 la lb lc = zip3 (take k la) (take k lb) (take k lc).
Proof.
  revert lb lc. induction la as [|a la IH]; intros [|b lb] [|c lc]; try done.
  simpl. f_equal. apply IH.
Qed.

Lemma zip3_group_ids (la : list (option (Polylines Polyline2D)))
    (lb : list Metadata) (lc : list string) :
  group_id <$> zip3 la lb lc
  = take (length la `min` (length lb `min` length lc))%nat lc.
Proof.
  revert lb lc. induction la as [|a la IH]; intros [|b lb] [|c lc]; try done.
  simpl. f_equal. apply IH.
Qed.

(** X14.  The three value lists are read in step and only as far as the
    shortest reaches: what lies beyond in a longer list is ignored, and
    the keys of the mapping are the group identifiers up to there. *)
Theorem batch_stops_at_shortest all_polylines metadatas group_ids z :
  let k := (length all_polylines
            `min` (length metadatas `min` length group_ids))%nat in
  load_annotation all_polylines metadatas group_ids z
  = load_annotation (take k all_polylines) (take k metadatas)
      (take k group_ids) z ∧
  ∀ m, load_annotation all_polylines metadatas group_ids z = Ok m →
       dom m = list_to_set (take k group_ids).
Proof.
  intros k. unfold load_annotation. split.
  - by rewrite (zip3_take all_polylines metadatas group_ids).
  - intros m Hrun.
    rewrite (group_loop_dom _ _ _ _ Hrun), dom_empty_L, zip3_group_ids.
    by rewrite (left_id_L ∅ (∪)).
Qed.

(** ** The slice choices *)

Lemma slice_loop_spec items choices default :
  slice_loop items choices default
  = (choices ++ pcd_slices items,
     match default with
     | Some d => Some d
     | None => head (pcd_slices items)
     end).
Proof.
  revert choices default. unfold pcd_slices.
  induction items as [|[s t] items IH]; intros choices default; simpl.
  - rewrite app_nil_r. by destruct default.
  - destruct (is_pcd_media_type t); rewrite IH; [|done].
    simpl. rewrite <- app_assoc. by destruct default.
Qed.

Lemma elem_of_pcd_slices items s :
  s ∈ pcd_slices items ↔
  ∃ t, (s, t) ∈ items ∧ (t = "pcd"%string ∨ t = "3d"%string).
Proof.
  unfold pcd_slices. rewrite list_elem_of_fmap. split.
  - intros ([s' t] & -> & Hin). apply list_elem_of_In, filter_In in Hin.
    destruct Hin as [Hin Ht]. exists t. split; [by apply list_elem_of_In|].
    unfold is_pcd_media_type in Ht. simpl in Ht.
    apply bool_decide_eq_true in Ht.
    rewrite !elem_of_cons in Ht. destruct Ht as [?|[?|Hnil]]; [by left|by right|].
    by apply elem_of_nil in Hnil.
  - intros (t & Hin & Ht). exists (s, t). split; [done|].
    apply list_elem_of_In, filter_In. split; [by apply list_elem_of_In|].
    unfold is_pcd_media_type. simpl. apply bool_decide_eq_true.
    rewrite !elem_of_cons. tauto.
Qed.

(** X15.  The dropdown offers exactly the slices whose media type is
    [pcd] or [3d], in the order of the dict and each once. *)
Theorem choices_are_pcd_slices group_media_types :
  fst (pcd_slice_choices group_media_types) = pcd_slices group_media_types ∧
  (∀ s, s ∈ fst (pcd_slice_choices group_media_types) ↔
        ∃ t, (s, t) ∈ group_media_types
             ∧ (t = "pcd"%string ∨ t = "3d"%string)) ∧
  (NoDup (fst <$> group_media_types) →
   NoDup (fst (pcd_slice_choices group_media_types))).
Proof.
  unfold pcd_slice_choices. rewrite slice_loop_spec. cbn [fst app].
  split; [done|]. split; [apply elem_of_pcd_slices|].
  unfold pcd_slices. induction group_media_types as [|[s t] items IH];
    simpl; [done|].
  intros Hnd. apply NoDup_cons in Hnd as [Hs Hnd].
  destruct (is_pcd_media_type t); [|by apply IH].
  simpl. apply NoDup_cons. split; [|by apply IH].
  intros Hin. apply Hs. apply list_elem_of_fmap in Hin as ([s' t'] & -> & Hin).
  apply list_elem_of_In, filter_In in Hin as [Hin _].
  apply list_elem_of_fmap. exists (s', t'). split; [done|].
  by apply list_elem_of_In.
Qed.

(** X16.  The default slice is the first choice of the dropdown: it is one
    of the choices whenever there is a choice, and it is missing exactly
    when no slice has the media type [pcd] or [3d]. *)
Theorem default_is_first_choice group_media_types :
  snd (pcd_slice_choices group_media_types)
  = head (fst (pcd_slice_choices group_media_types)) ∧
  (snd (pcd_slice_choices group_media_types) = None ↔
   ∀ s t, (s, t) ∈ group_media_types → t ≠ "pcd"%string ∧ t ≠ "3d"%string).
Proof.
  unfold pcd_slice_choices. rewrite slice_loop_spec. cbn [fst snd app].
  split; [done|]. split.
  - intros Hnone s t Hin.
    assert (s ∉ pcd_slices group_media_types) as Hnot.
    { destruct (pcd_slices group_media_types); [apply not_elem_of_nil|done]. }
    rewrite elem_of_pcd_slices in Hnot.
    split; intros ->; apply Hnot; eexists; split; eauto.
  - intros Hall. destruct (pcd_slices group_media_types) as [|s l] eqn:Hl;
      [done|].
    assert (s ∈ pcd_slices group_media_types) as Hin by (rewrite Hl; left).
    apply elem_of_pcd_slices in Hin as (t & Hin & Ht).
    destruct (Hall _ _ Hin) as [Hp H3]. by destruct Ht.
Qed.

(** ** The further properties at concrete inputs *)

Lemma midpoint_run :
  polyline_2d_to_3d midpoint_polyline corner_metadata (-16 # 10)
  = Ok (mkPolyline3D
          (map_rows (lift_point corner_metadata (-16 # 10))
             (points midpoint_polyline))
          (label midpoint_polyline)).
Proof.
  apply (polyline_2d_to_3d_rect _ _ _ 2 2 2); [lia|lia|lia|].
  exact midpoint_rect.
Qed.

Lemma unit_square_run md z :
  polyline_2d_to_3d unit_square_polyline md z
  = Ok (mkPolyline3D
          (map_rows (lift_point md z) (points unit_square_polyline))
          (label unit_square_polyline)).
Proof.
  apply (polyline_2d_to_3d_rect _ _ _ 1 2 2); [lia|lia|lia|].
  split; [reflexivity|]. repeat constructor.
Qed.

Lemma point_locality_witness :
  ∃ r r',
    polyline_2d_to_3d corner_polyline corner_metadata (-16 # 10) = Ok r ∧
    polyline_2d_to_3d midpoint_polyline corner_metadata (-16 # 10) = Ok r' ∧
    point_at (points corner_polyline) 0 1
    = point_at (points midpoint_polyline) 0 1 ∧
    point_at (points3d r) 0 1 = point_at (points3d r') 0 1.
Proof.
  eexists _, _. split; [exact corner_run|]. split; [exact midpoint_run|].
  split; [reflexivity|].
  exact (point_locality corner_polyline midpoint_polyline corner_metadata
           (-16 # 10) _ _ 0%nat 1%nat 0%nat 1%nat
           corner_run midpoint_run eq_refl).
Defined.

Lemma one_coordinate_rect : rect 1 2 1 (points one_coordinate_polyline).
Proof. split; [reflexivity|]. repeat constructor. Qed.

Lemma one_coordinate_overwrites_height_witness :
  (0 < 1)%nat ∧ (0 < 2)%nat ∧ rect 1 2 1 (points one_coordinate_polyline) ∧
  ∃ r x y,
    polyline_2d_to_3d one_coordinate_polyline corner_metadata (-2) = Ok r ∧
    point_at (points3d r) 0 0 = Some [x; y] ∧
    y == (1 - -2) * (20 - 0) + 0.
Proof.
  split; [lia|]. split; [lia|]. split; [exact one_coordinate_rect|].
  destruct (one_coordinate_overwrites_height one_coordinate_polyline
              corner_metadata (-2) 1 2 ltac:(lia) ltac:(lia)
              one_coordinate_rect) as (r & Hrun & Hpts).
  destruct (Hpts 0%nat 0%nat [1] eq_refl) as (u & x & y & _ & Hout & _ & Hy).
  by exists r, x, y.
Defined.

Lemma height_changes_last_coordinate_only_witness :
  (0 < 1)%nat ∧ (0 < 2)%nat ∧ (2 ≤ 2)%nat ∧
  rect 1 2 2 (points corner_polyline) ∧
  ∃ r r',
    polyline_2d_to_3d corner_polyline corner_metadata (-16 # 10) = Ok r ∧
    polyline_2d_to_3d corner_polyline corner_metadata 0 = Ok r' ∧
    map_rows (take 2) (points3d r) = map_rows (take 2) (points3d r').
Proof.
  split; [lia|]. split; [lia|]. split; [lia|]. split; [exact corner_rect|].
  destruct (height_changes_last_coordinate_only corner_polyline
              corner_metadata (-16 # 10) 0 1 2 2
              ltac:(lia) ltac:(lia) ltac:(lia) corner_rect)
    as (r & r' & Hrun & Hrun' & _ & _ & Htake).
  by exists r, r'.
Defined.

Lemma sample_first_rejection_witness :
  convert_sample
    (Some (mkPolylines [corner_polyline; no_chain_polyline; ragged_polyline]))
    corner_metadata (-16 # 10)
  = Raise IndexError.
Proof.
  apply (sample_first_rejection
           (mkPolylines [corner_polyline; no_chain_polyline; ragged_polyline])
           corner_metadata (-16 # 10)
           [corner_polyline] no_chain_polyline [ragged_polyline] IndexError).
  - reflexivity.
  - repeat constructor. eexists. exact corner_run.
  - reflexivity.
Defined.

Lemma batch_first_failure_witness :
  load_annotation failing_batch_polylines failing_batch_metadatas
    failing_batch_ids (-16 # 10)
  = Raise IndexError.
Proof.
  apply (batch_first_failure failing_batch_polylines failing_batch_metadatas
           failing_batch_ids (-16 # 10)
           [(Some (mkPolylines [corner_polyline]), corner_metadata,
             "g1"%string)]
           (Some (mkPolylines
                    [corner_polyline; no_chain_polyline; ragged_polyline]))
           corner_metadata "g2"%string
           [(Some (mkPolylines [ragged_polyline]), corner_metadata,
             "g3"%string)]
           IndexError).
  - reflexivity.
  - repeat constructor. eexists. vm_compute. reflexivity.
  - vm_compute. reflexivity.
Defined.

Example media_types_choices :
  pcd_slice_choices media_types
  = (["lidar"; "scene"]%string, Some "lidar"%string).
Proof. reflexivity. Qed.

Example long_ids_ignored :
  ∃ m, load_annotation batch_polylines batch_metadatas long_ids (-16 # 10)
       = Ok m ∧ dom m = {["g1"%string; "g2"%string]}.
Proof.
  destruct (group_loop_total
              (zip3 batch_polylines batch_metadatas long_ids) (-16 # 10) ∅)
    as [m Hrun].
  { repeat constructor; eexists; vm_compute; reflexivity. }
  exists m. split; [exact Hrun|].
  rewrite (group_loop_dom _ _ _ _ Hrun), dom_empty_L.
  rewrite (left_id_L ∅ (∪)). simpl.
  by rewrite (right_id_L ∅ (∪)).
Qed.

Example inverted_bounds_run :
  polyline_2d_to_3d corner_polyline inverted_metadata (-16 # 10)
  = Ok (mkPolyline3D [[[10; 0; -16 # 10]; [0; 20; -16 # 10]]] "lane").
Proof. vm_compute. reflexivity. Qed.

(** ** Degenerate bounds and the order of the batch *)

(** X17.  Bounds that coincide on an axis are not rejected: every output
    point then has the bound itself as its coordinate on that axis,
    whatever the input point. *)
Theorem degenerate_bounds_collapse p md z r i j u v :
  polyline_2d_to_3d p md z = Ok r →
  point_at (points p) i j = Some [u; v] →
  ∃ x y, point_at (points3d r) i j = Some [x; y; z] ∧
         (fst (max_bound md) == fst (min_bound md) →
          x == fst (min_bound md)) ∧
         (snd (max_bound md) == snd (min_bound md) →
          y == snd (min_bound md)).
Proof.
  intros Hrun Hpt.
  rewrite (polyline_2d_to_3d_ok_point _ _ _ _ _ _ Hrun), Hpt.
  cbn [fmap option_fmap option_map]. rewrite lift_point_2.
  eexists _, _. split; [reflexivity|].
  split; intros ->; ring.
Qed.

Lemma group_loop_bound es z (m : gmap string (Polylines Polyline3D))
    sp md g :
  NoDup (group_id <$> es) →
  group_loop es z ∅ = Ok m →
  (sp, md, g) ∈ es →
  ∃ c, convert_sample sp md z = Ok c ∧ m !! g = Some (mkPolylines c).
Proof.
  intros Hnodup Hrun Hin.
  apply list_elem_of_split in Hin as (pre & post & Hsplit).
  rewrite Hsplit in Hrun, Hnodup.
  apply (group_loop_last _ _ _ _ _ _ _ _ Hrun).
  rewrite fmap_app, fmap_cons in Hnodup.
  apply NoDup_app in Hnodup as (_ & _ & Hnd).
  by apply NoDup_cons in Hnd as [Hnotin _].
Qed.

Lemma group_loop_permutation es es' z
    (m : gmap string (Polylines Polyline3D)) :
  es ≡ₚ es' →
  NoDup (group_id <$> es) →
  group_loop es z ∅ = Ok m →
  group_loop es' z ∅ = Ok m.
Proof.
  intros Hperm Hnodup Hrun.
  assert (NoDup (group_id <$> es')) as Hnodup' by (by rewrite <- Hperm).
  destruct (group_loop_total es' z ∅) as [m' Hrun'].
  { rewrite <- Hperm. by eapply group_loop_convertible. }
  rewrite Hrun'. unfold Ok. f_equal. apply map_eq. intros g.
  destruct (decide (g ∈ group_id <$> es)) as [Hin|Hnotin].
  - apply list_elem_of_fmap in Hin as ([[sp md] g'] & -> & Hin).
    unfold group_id. cbn [snd].
    destruct (group_loop_bound _ _ _ _ _ _ Hnodup Hrun Hin) as (c & Hc & ->).
    rewrite Hperm in Hin.
    destruct (group_loop_bound _ _ _ _ _ _ Hnodup' Hrun' Hin)
      as (c' & Hc' & ->).
    rewrite Hc in Hc'. by injection Hc' as <-.
  - rewrite (group_loop_other _ _ _ _ _ Hrun Hnotin).
    rewrite Hperm in Hnotin.
    by rewrite (group_loop_other _ _ _ _ _ Hrun' Hnotin).
Qed.

(** X18.  With pairwise distinct group identifiers the mapping does not
    depend on the order of the batch: the same entries in another order
    give the same mapping. *)
Theorem batch_order_irrelevant all_polylines metadatas group_ids
    all_polylines' metadatas' group_ids' z m :
  zip3 all_polylines metadatas group_ids
    ≡ₚ zip3 all_polylines' metadatas' group_ids' →
  NoDup (group_id <$> zip3 all_polylines metadatas group_ids) →
  load_annotation all_polylines metadatas group_ids z = Ok m →
  load_annotation all_polylines' metadatas' group_ids' z = Ok m.
Proof. unfold load_annotation. apply group_loop_permutation. Qed.

Lemma degenerate_bounds_collapse_witness :
  ∃ r x y,
    polyline_2d_to_3d unit_square_polyline degenerate_metadata (-16 # 10)
    = Ok r ∧
    point_at (points3d r) 0 0 = Some [x; y; -16 # 10] ∧ x == 3 ∧ y == 5.
Proof.
  destruct (degenerate_bounds_collapse unit_square_polyline
              degenerate_metadata (-16 # 10) _ 0%nat 0%nat (1 # 4) (1 # 4)
              (unit_square_run degenerate_metadata (-16 # 10)) eq_refl)
    as (x & y & Hout & Hx & Hy).
  eexists _, x, y. split; [exact (unit_square_run _ _)|].
  split_and!; [done|by apply Hx|by apply Hy].
Defined.

Lemma batch_order_irrelevant_witness :
  ∃ m, load_annotation batch_polylines batch_metadatas batch_ids (-16 # 10)
       = Ok m ∧
       load_annotation swapped_batch_polylines batch_metadatas
         swapped_batch_ids (-16 # 10) = Ok m.
Proof.
  destruct (group_loop_total
              (zip3 batch_polylines batch_metadatas batch_ids) (-16 # 10) ∅)
    as [m Hrun].
  { repeat constructor; eexists; vm_compute; reflexivity. }
  exists m. split; [exact Hrun|].
  apply (batch_order_irrelevant batch_polylines batch_metadatas batch_ids
           swapped_batch_polylines batch_metadatas swapped_batch_ids
           (-16 # 10) m).
  - apply Permutation_swap.
  - exact batch_ids_distinct.
  - exact Hrun.
Defined.
